(** * The second-level build script [lib/cretonne/meta/build.py]

    The script parses its command line with [argparse], resolves the ISA
    registry and then calls the five generators one after the other.  The
    generator modules ([isa], [gen_types], [gen_instr], [gen_settings],
    [gen_encoding], [gen_build_deps]) are imported by the script; here they
    are an interface, and the script is a program over any monad that
    implements it. *)

From Stdlib Require Import String Ascii List ZArith Lia Bool.
From ExtLib Require Import Structures.Monad Structures.MonadExc.
Import ListNotations.
Import MonadNotation.
Local Open Scope monad_scope.
Local Open Scope string_scope.
Local Open Scope list_scope.

Set Implicit Arguments.

(** ** Python values the script handles *)

(** [args.out_dir] is [None] or a [str]. *)
Definition pyopt := option string.

(** What leaves the script: [SystemExit] (raised by [argparse]),
    [AttributeError] (a missing attribute of the namespace) or an exception
    [e] raised inside one of the imported modules, of whatever class: the
    script catches nothing. *)
Inductive exc (E : Type) : Type :=
| SystemExit (code : Z)
| AttributeError (name : string)
| StageError (e : E).
Arguments SystemExit {E} code.
Arguments AttributeError {E} name.
Arguments StageError {E} e.

(** The status of the interpreter process: 0 when the script runs to its
    end, the code of argparse's [SystemExit], 1 for the [AttributeError].
    For an exception [e] that a module raised it is [status e], the status
    the interpreter gives an uncaught [e]: the code of a [SystemExit]
    raised inside the module, 1 for an exception of any other class. *)
Definition exit_code {E A} (status : E -> Z) (r : exc E + A) : Z :=
  match r with
  | inr _ => 0
  | inl (SystemExit c) => c
  | inl (AttributeError _) => 1
  | inl (StageError e) => status e
  end%Z.

(** ** argparse *)

Module argparse.

Inductive action_kind := HelpAction | StoreAction.

Record action := Action {
  option_strings : list string;
  dest : string;
  kind : action_kind;
  help : option string }.

Record ArgumentParser_t := Parser {
  description : string;
  actions : list action }.

Definition Namespace := list (string * pyopt).

(** [ArgumentParser(description=...)]: [add_help] defaults to [True], so
    the parser is born with the [-h]/[--help] action. *)
Definition ArgumentParser (description : string) : ArgumentParser_t :=
  Parser description
    [Action ["-h"; "--help"] "help" HelpAction
            (Some "show this help message and exit")].

(** The destination of an optional argument: its option string without
    the leading dashes, every other dash turned into an underscore. *)
Fixpoint lstrip_dash (s : string) : string :=
  match s with
  | String "-" rest => lstrip_dash rest
  | _ => s
  end.

Fixpoint dash_to_underscore (s : string) : string :=
  match s with
  | EmptyString => EmptyString
  | String "-" rest => String "_" (dash_to_underscore rest)
  | String c rest => String c (dash_to_underscore rest)
  end.

Definition dest_of (option_string : string) : string :=
  dash_to_underscore (lstrip_dash option_string).

(** [parser.add_argument(flag, help=...)]: a store action taking one
    argument, default [None]. *)
Definition add_argument (p : ArgumentParser_t) (flag : string)
    (help : string) : ArgumentParser_t :=
  Parser (description p)
    (actions p ++ [Action [flag] (dest_of flag) StoreAction (Some help)]).

(** The command line after argparse's lexical pass, which reads the whole
    line before any action is taken.  An argument that the pass resolved
    to an option is [Optional] with the option string it stands for (the
    registered string itself, also when an unambiguous prefix of it was
    typed) and the explicit argument split off at [=]; an option-like
    argument that it could not resolve keeps its own string; every other
    argument is [Plain].  What the pass itself rejects (an ambiguous
    prefix), the [--] separator and clusters of one-letter flags have no
    token: lines with them are outside this model. *)
Inductive token :=
| Optional (option_string : string) (explicit_arg : option string)
| Plain (s : string).

Inductive parse_result :=
| Parsed (ns : Namespace)
| Exit (code : Z).

(** The action registered for a resolved option string. *)
Definition find_action (p : ArgumentParser_t) (o : string) : option action :=
  find (fun a => existsb (String.eqb o) (option_strings a)) (actions p).

Fixpoint setattr (ns : Namespace) (name : string) (v : pyopt) : Namespace :=
  match ns with
  | [] => [(name, v)]
  | (n, w) :: rest =>
      if String.eqb n name then (n, v) :: rest
      else (n, w) :: setattr rest name v
  end.

Fixpoint getattr (ns : Namespace) (name : string) : option pyopt :=
  match ns with
  | [] => None
  | (n, w) :: rest => if String.eqb n name then Some w else getattr rest name
  end.

(** The namespace starts with every store action's destination at its
    default, [None]; the help action has no attribute. *)
Definition defaults (p : ArgumentParser_t) : Namespace :=
  fold_left
    (fun ns a => match kind a with
                 | StoreAction => setattr ns (dest a) None
                 | HelpAction => ns
                 end)
    (actions p) [].

(** The parsing loop, left to right.  Help prints and exits with 0 as
    soon as it is met; a store action without its argument, or help with
    an explicit argument ([--help=x]), is a usage error (exit 2) on the
    spot; what is not recognized is collected and is a usage error at the
    end. *)
Fixpoint consume (p : ArgumentParser_t) (ns : Namespace)
    (extras : list string) (argv : list token) : parse_result :=
  match argv with
  | [] => match extras with [] => Parsed ns | _ :: _ => Exit 2 end
  | Plain s :: rest => consume p ns (extras ++ [s]) rest
  | Optional o e :: rest =>
      match find_action p o with
      | None => consume p ns (extras ++ [o]) rest
      | Some a =>
          match kind a with
          | HelpAction =>
              match e with None => Exit 0 | Some _ => Exit 2 end
          | StoreAction =>
              match e with
              | Some v => consume p (setattr ns (dest a) (Some v)) extras rest
              | None =>
                  match rest with
                  | Plain v :: rest' =>
                      consume p (setattr ns (dest a) (Some v)) extras rest'
                  | _ => Exit 2
                  end
              end
          end
      end
  end.

Definition parse_args (p : ArgumentParser_t) (argv : list token)
    : parse_result :=
  consume p (defaults p) [] argv.

End argparse.

(** ** The interface of the imported modules

    [I] is the type of whatever [isa.all_isas()] returns: the script never
    looks inside it, it only binds it to [isas] and passes it on.  It may
    be a reference to a list that the modules share and mutate; the script
    passes the same value each time.  The signatures are those of the call
    sites; what a [generate] returns is dropped by the script. *)
Class Stages (M : Type -> Type) (I : Type) : Type := {
  isa_all_isas : M I;
  gen_types_generate : pyopt -> M unit;
  gen_instr_generate : I -> pyopt -> M unit;
  gen_settings_generate : I -> pyopt -> M unit;
  gen_encoding_generate : I -> pyopt -> M unit;
  gen_build_deps_generate : M unit }.

(** ** The script *)

Section Script.
Context {M : Type -> Type} {I E : Type}.
Context {MonadM : Monad M} {ExcM : MonadExc (exc E) M} {StagesM : Stages M I}.

(** [parser = argparse.ArgumentParser(description='Generate sources for
    Cretonne.')] and
    [parser.add_argument('--out-dir', help='set output directory')] *)
Definition parser : argparse.ArgumentParser_t :=
  argparse.add_argument
    (argparse.ArgumentParser "Generate sources for Cretonne.")
    "--out-dir" "set output directory".

(** [args = parser.parse_args()] *)
Definition parse_args (argv : list argparse.token) : M argparse.Namespace :=
  match argparse.parse_args parser argv with
  | argparse.Parsed ns => ret ns
  | argparse.Exit code => raise (SystemExit code)
  end.

(** [args.out_dir] *)
Definition attr (ns : argparse.Namespace) (name : string) : M pyopt :=
  match argparse.getattr ns name with
  | Some v => ret v
  | None => raise (AttributeError name)
  end.

(** Everything after the command line is read:
<<
    isas = isa.all_isas()

    gen_types.generate(out_dir)
    gen_instr.generate(isas, out_dir)
    gen_settings.generate(isas, out_dir)
    gen_encoding.generate(isas, out_dir)
    gen_build_deps.generate()
>>
    No call is guarded by [try]: an exception leaves the script. *)
Definition generate_all (out_dir : pyopt) : M unit :=
  isas <- isa_all_isas ;;
  gen_types_generate out_dir ;;
  gen_instr_generate isas out_dir ;;
  gen_settings_generate isas out_dir ;;
  gen_encoding_generate isas out_dir ;;
  gen_build_deps_generate.

(** The whole script: [args = parser.parse_args()],
    [out_dir = args.out_dir], then the stages. *)
Definition build_py (argv : list argparse.token) : M unit :=
  args <- parse_args argv ;;
  out_dir <- attr args "out_dir" ;;
  generate_all out_dir.

End Script.

(** ** Running the script on an implementation of the modules

    An imported function is any state transformer over a world [World] (the
    file system with the output directory, the modules' globals and the
    objects they share) that returns a value or raises.  The run keeps the
    state a raising call leaves behind, as the interpreter does, and logs
    every call the script makes together with the way it ended. *)

Inductive stage :=
| IsaRegistry
| TypeCatalog
| InstructionTable
| SettingsTable
| EncodingTable
| BuildDeps.

Definition stage_eqb (a b : stage) : bool :=
  match a, b with
  | IsaRegistry, IsaRegistry
  | TypeCatalog, TypeCatalog
  | InstructionTable, InstructionTable
  | SettingsTable, SettingsTable
  | EncodingTable, EncodingTable
  | BuildDeps, BuildDeps => true
  | _, _ => false
  end.

Section Run.
Variables (World I E : Type).

(** A call site of the script with the actual arguments. *)
Inductive call :=
| isa_all_isas_call
| gen_types_call (out_dir : pyopt)
| gen_instr_call (isas : I) (out_dir : pyopt)
| gen_settings_call (isas : I) (out_dir : pyopt)
| gen_encoding_call (isas : I) (out_dir : pyopt)
| gen_build_deps_call.

Definition callee (c : call) : stage :=
  match c with
  | isa_all_isas_call => IsaRegistry
  | gen_types_call _ => TypeCatalog
  | gen_instr_call _ _ => InstructionTable
  | gen_settings_call _ _ => SettingsTable
  | gen_encoding_call _ _ => EncodingTable
  | gen_build_deps_call => BuildDeps
  end.

(** The actual arguments of a call, in order. *)
Inductive arg :=
| IsasArg (isas : I)
| OutDirArg (out_dir : pyopt).

Definition call_args (c : call) : list arg :=
  match c with
  | isa_all_isas_call => []
  | gen_types_call o => [OutDirArg o]
  | gen_instr_call i o => [IsasArg i; OutDirArg o]
  | gen_settings_call i o => [IsasArg i; OutDirArg o]
  | gen_encoding_call i o => [IsasArg i; OutDirArg o]
  | gen_build_deps_call => []
  end.

Inductive event :=
| Called (c : call)
| Returned (s : stage)
| Raised (s : stage) (e : E).

Record state := State {
  trace : list event;
  world : World }.

Definition run (A : Type) : Type := state -> (exc E + A) * state.

#[export] Instance Monad_run : Monad run := {
  ret := fun A (a : A) s => (inr a, s);
  bind := fun A B (c : run A) (k : A -> run B) s =>
    match c s with
    | (inr a, s') => k a s'
    | (inl x, s') => (inl x, s')
    end }.

#[export] Instance MonadExc_run : MonadExc (exc E) run := {
  raise := fun A (x : exc E) s => (inl x, s);
  catch := fun A (c : run A) (h : exc E -> run A) s =>
    match c s with
    | (inr a, s') => (inr a, s')
    | (inl x, s') => h x s'
    end }.

(** The imported functions. *)
Record modules := Modules {
  all_isas : World -> (E + I) * World;
  types_generate : pyopt -> World -> (E + unit) * World;
  instr_generate : I -> pyopt -> World -> (E + unit) * World;
  settings_generate : I -> pyopt -> World -> (E + unit) * World;
  encoding_generate : I -> pyopt -> World -> (E + unit) * World;
  build_deps_generate : World -> (E + unit) * World }.

Variable mods : modules.

(** One call: log it, run the callee on the world, log how it ended. *)
Definition invoke {A} (c : call) (f : World -> (E + A) * World) : run A :=
  fun s =>
    match f (world s) with
    | (inr a, w') =>
        (inr a, State (trace s ++ [Called c; Returned (callee c)]) w')
    | (inl e, w') =>
        (inl (StageError e),
         State (trace s ++ [Called c; Raised (callee c) e]) w')
    end.

#[export] Instance Stages_run : Stages run I := {
  isa_all_isas := invoke isa_all_isas_call (all_isas mods);
  gen_types_generate := fun o =>
    invoke (gen_types_call o) (types_generate mods o);
  gen_instr_generate := fun i o =>
    invoke (gen_instr_call i o) (instr_generate mods i o);
  gen_settings_generate := fun i o =>
    invoke (gen_settings_call i o) (settings_generate mods i o);
  gen_encoding_generate := fun i o =>
    invoke (gen_encoding_call i o) (encoding_generate mods i o);
  gen_build_deps_generate :=
    invoke gen_build_deps_call (build_deps_generate mods) }.

(** [python build.py argv] started in world [w]. *)
Definition main (argv : list argparse.token) (w : World)
    : (exc E + unit) * state :=
  build_py (M := run) argv (State [] w).

Definition result_of (r : (exc E + unit) * state) : exc E + unit := fst r.
Definition trace_of (r : (exc E + unit) * state) : list event :=
  trace (snd r).
Definition world_of (r : (exc E + unit) * state) : World :=
  world (snd r).

(** The stages a trace entered, in order. *)
Fixpoint calls (t : list event) : list call :=
  match t with
  | [] => []
  | Called c :: t' => c :: calls t'
  | _ :: t' => calls t'
  end.

Definition entered (t : list event) : list stage := map callee (calls t).



End Run.

Arguments isa_all_isas_call {I}.
Arguments gen_types_call {I} out_dir.
Arguments gen_build_deps_call {I}.
Arguments OutDirArg {I} out_dir.
Arguments Called {I E} c.
Arguments Returned {I E} s.
Arguments Raised {I E} s e.

(** ** Properties of traces *)

(** The order in which the script lists the stages. *)
Definition pipeline : list stage :=
  [IsaRegistry; TypeCatalog; InstructionTable; SettingsTable; EncodingTable;
   BuildDeps].

(** The stages a stage takes its input from (system overview): the
    instruction tables need the types and the ISA list, the settings need
    the ISA list, the encodings need all four, and the dependency manifest
    needs every other stage. *)
Definition depends_on (s : stage) : list stage :=
  match s with
  | IsaRegistry => []
  | TypeCatalog => []
  | InstructionTable => [TypeCatalog; IsaRegistry]
  | SettingsTable => [IsaRegistry]
  | EncodingTable => [TypeCatalog; InstructionTable; SettingsTable; IsaRegistry]
  | BuildDeps =>
      [IsaRegistry; TypeCatalog; InstructionTable; SettingsTable; EncodingTable]
  end.

Section TraceProperties.
Variables (I E : Type).
Implicit Types (t : list (event I E)) (c : call I).

(** Whenever a stage is entered, each stage it depends on has returned. *)
Definition respects_dependencies t : Prop :=
  forall pre c post, t = pre ++ Called c :: post ->
  forall d, In d (depends_on (callee c)) -> In (Returned d) pre.

(** The same, decided along the trace; [done] holds the stages that have
    returned so far. *)
Fixpoint deps_done (done : list stage) t : bool :=
  match t with
  | [] => true
  | Called c :: t' =>
      forallb (fun d => existsb (stage_eqb d) done) (depends_on (callee c))
      && deps_done done t'
  | Returned s :: t' => deps_done (s :: done) t'
  | Raised _ _ :: t' => deps_done done t'
  end.

(** Nothing happens after an exception. *)
Fixpoint raise_is_last t : bool :=
  match t with
  | [] => true
  | Raised _ _ :: t' => match t' with [] => true | _ :: _ => false end
  | _ :: t' => raise_is_last t'
  end.

(** No stage is entered twice. *)
Fixpoint distinct (l : list stage) : bool :=
  match l with
  | [] => true
  | s :: l' => negb (existsb (stage_eqb s) l') && distinct l'
  end.

Definition raised t : Prop := exists s e, In (Raised s e) t.

End TraceProperties.

(** ** The ISA registry *)

Module isa.

Inductive ConfigurationError :=
| EmptyRegistry
| DuplicateIsa (name : string).

(** The first identifier that occurs again later in the list. *)
Fixpoint first_duplicate (l : list string) : option string :=
  match l with
  | [] => None
  | x :: rest =>
      if existsb (String.eqb x) rest then Some x else first_duplicate rest
  end.

(** Modelled from the spec: the module [isa] with its function
    [all_isas] is imported by the script and is not among the sources.
    Section 4.2: the registry exposes the ordered list of the declared
    target ISA identifiers and fails with a ConfigurationError if the
    declared list is empty or contains duplicate identifiers. *)
Definition all_isas (declared : list string)
    : ConfigurationError + list string :=
  match declared with
  | [] => inl EmptyRegistry
  | _ :: _ =>
      match first_duplicate declared with
      | Some name => inl (DuplicateIsa name)
      | None => inr declared
      end
  end.

End isa.

(** ** A sample implementation of the imported modules *)

Module Sample.

(** The error taxonomy of the specification, each with the entity the
    error names. *)
Inductive error :=
| DefinitionError (entity : string)
| ConfigurationError (what : isa.ConfigurationError)
| TypeInferenceError (instruction : string)
| SettingsCycleError (setting : string)
| OverlapError (instruction : string)
| LegalizationCycleError (instruction : string)
| UnencodableError (instruction : string).

(** The world: the declarative input (the declared ISAs, and the
    instruction, if any, whose type variable cannot be resolved) and the
    output sink, a log of the artifacts written with the directory they
    were written to. *)
Record world := World {
  declared_isas : list string;
  unresolved : option string;
  sink : list (pyopt * string) }.

Definition write (w : world) (dir : pyopt) (artifact : string) : world :=
  World (declared_isas w) (unresolved w) (sink w ++ [(dir, artifact)]).

(** One implementation the interface admits, to run the script on: each
    stage writes its artifact when it is called, and the instruction stage
    raises when an instruction cannot be typed.  It is an instance for
    properties that hold of every implementation; nothing here says that
    the modules of the repository behave this way. *)
Definition mods : modules world (list string) error :=
  Modules
    (fun w =>
       match isa.all_isas (declared_isas w) with
       | inl c => (inl (ConfigurationError c), w)
       | inr l => (inr l, w)
       end)
    (fun o w => (inr tt, write w o "types"))
    (fun _ o w =>
       match unresolved w with
       | Some n => (inl (TypeInferenceError n), w)
       | None => (inr tt, write w o "instructions")
       end)
    (fun _ o w => (inr tt, write w o "settings"))
    (fun i o w =>
       (inr tt,
        fold_left (fun w' n => write w' o ("encodings-" ++ n)%string) i w))
    (fun w => (inr tt, write w None "dependencies")).

(** A sound input, and one whose instruction [iadd] cannot be typed. *)
Definition good : world := World ["riscv"; "intel"] None [].
Definition bad : world := World ["riscv"; "intel"] (Some "iadd") [].

Definition argv : list argparse.token :=
  [argparse.Optional "--out-dir" None; argparse.Plain "out"].

(** The errors of the taxonomy are ordinary exceptions: uncaught, each
    gives the process status 1. *)
Definition status (e : error) : Z := 1%Z.

End Sample.

(** ** The generator modules as the specification describes them *)

Module Staged.

(** What can be wrong with the encodings of an instruction. *)
Inductive encoding_fault :=
| Overlap (instruction : string)
| LegalizationCycle (instruction : string)
| Unencodable (instruction : string).

Definition encoding_error (f : encoding_fault) : Sample.error :=
  match f with
  | Overlap n => Sample.OverlapError n
  | LegalizationCycle n => Sample.LegalizationCycleError n
  | Unencodable n => Sample.UnencodableError n
  end.

(** The world: the declarative input (the declared ISAs and, for each
    validating stage, the entity, if any, that makes its input
    inconsistent), the tables built so far with the directory they are
    for, and the output sink, a log of the artifacts written. *)
Record world := World {
  declared_isas : list string;
  type_defect : option string;
  instruction_defect : option string;
  settings_defect : option string;
  encoding_defect : option encoding_fault;
  pending : list (pyopt * string);
  sink : list (pyopt * string) }.

(** A stage keeps what it built in memory. *)
Definition hold (w : world) (tables : list (pyopt * string)) : world :=
  World (declared_isas w) (type_defect w) (instruction_defect w)
    (settings_defect w) (encoding_defect w) (pending w ++ tables) (sink w).

(** The final write: every table held, then the dependency manifest. *)
Definition write_all (w : world) : world :=
  World (declared_isas w) (type_defect w) (instruction_defect w)
    (settings_defect w) (encoding_defect w) []
    (sink w ++ pending w ++ [(None, "dependencies")]).

Definition encodings (isas : list string) (dir : pyopt)
    : list (pyopt * string) :=
  map (fun n => (dir, ("encodings-" ++ n)%string)) isas.

(** Modelled from the spec: the generator modules are imported by the
    script and are not among the sources.  Sections 4.1 to 4.5 and 7: each
    stage validates its own input before it returns its table and fails
    with its error (DefinitionError, ConfigurationError, TypeInferenceError,
    SettingsCycleError, and OverlapError, LegalizationCycleError or
    UnencodableError), with no side effect beyond the in-memory table; section 5: nothing touches the output sink except the
    final write, which is all-or-nothing; sections 2 and 4.6: the
    build-dependency emitter runs last, after all other stages, validates
    nothing and emits the manifest; section 6: one artifact stream per
    table family (types, instructions, settings, encodings per ISA) plus
    the manifest.  The final write is made by the last call of the script,
    the only one left to make it. *)
Definition mods : modules world (list string) Sample.error :=
  Modules
    (fun w =>
       match isa.all_isas (declared_isas w) with
       | inl c => (inl (Sample.ConfigurationError c), w)
       | inr l => (inr l, w)
       end)
    (fun o w =>
       match type_defect w with
       | Some n => (inl (Sample.DefinitionError n), w)
       | None => (inr tt, hold w [(o, "types")])
       end)
    (fun _ o w =>
       match instruction_defect w with
       | Some n => (inl (Sample.TypeInferenceError n), w)
       | None => (inr tt, hold w [(o, "instructions")])
       end)
    (fun _ o w =>
       match settings_defect w with
       | Some n => (inl (Sample.SettingsCycleError n), w)
       | None => (inr tt, hold w [(o, "settings")])
       end)
    (fun i o w =>
       match encoding_defect w with
       | Some f => (inl (encoding_error f), w)
       | None => (inr tt, hold w (encodings i o))
       end)
    (fun w => (inr tt, write_all w)).


(** A sound input, and one with a cycle among the settings. *)
Definition good : world :=
  World ["riscv"; "intel"] None None None None [] [].
Definition bad : world :=
  World ["riscv"; "intel"] None None (Some "has_sse") None [] [].

End Staged.

(** ** Statements about the command line *)

(** The command line does not give the output directory. *)
Definition omitted (argv : list argparse.token) : Prop :=
  forall e, ~ In (argparse.Optional "--out-dir" e) argv.


(** A call receives the ISA list. *)
Definition receives_isas {I} (c : call I) : Prop :=
  exists i, In (IsasArg i) (call_args c).

(** The calls of a whole run, given the ISA list and the directory. *)
Definition script_calls {I} (i : I) (o : pyopt) : list (call I) :=
  [isa_all_isas_call; gen_types_call o; gen_instr_call i o;
   gen_settings_call i o; gen_encoding_call i o; gen_build_deps_call].

Definition is_registry_call {I} (c : call I) : bool :=
  stage_eqb (callee c) IsaRegistry.

Definition last_event {I E} (t : list (event I E)) : option (event I E) :=
  last (map Some t) None.

(** ** Further statements about the command line and the modules *)

(** No help option on the command line. *)
Definition no_help (argv : list argparse.token) : Prop :=
  forall o e, In (argparse.Optional o e) argv -> ~ In o ["-h"; "--help"].

(** Modules none of whose functions ever raises. *)
Definition never_raise {World I E} (mods : modules World I E) : Prop :=
  (forall w, exists i, fst (all_isas mods w) = inr i)
  /\ (forall o w, fst (types_generate mods o w) = inr tt)
  /\ (forall i o w, fst (instr_generate mods i o w) = inr tt)
  /\ (forall i o w, fst (settings_generate mods i o w) = inr tt)
  /\ (forall i o w, fst (encoding_generate mods i o w) = inr tt)
  /\ (forall w, fst (build_deps_generate mods w) = inr tt).

(** Sample modules that write their artifacts and never raise: the
    registry is returned as declared and every instruction is typed. *)
Definition quiet_modules : modules Sample.world (list string) Sample.error :=
  Modules
    (fun w => (inr (Sample.declared_isas w), w))
    (fun o w => (inr tt, Sample.write w o "types"))
    (fun _ o w => (inr tt, Sample.write w o "instructions"))
    (fun _ o w => (inr tt, Sample.write w o "settings"))
    (fun i o w =>
       (inr tt,
        fold_left
          (fun w' n => Sample.write w' o ("encodings-" ++ n)%string) i w))
    (fun w => (inr tt, Sample.write w None "dependencies")).

Unset Implicit Arguments.

(** * Properties *)

Lemma stage_eqb_eq a b : stage_eqb a b = true <-> a = b.
Proof. destruct a, b; simpl; split; intro H; congruence. Qed.

(** ** The command line *)

Lemma find_action_cases o :
  (In o ["-h"; "--help"]
   /\ exists a, argparse.find_action parser o = Some a
        /\ argparse.kind a = argparse.HelpAction)
  \/ (o = "--out-dir"
      /\ exists a, argparse.find_action parser o = Some a
           /\ argparse.kind a = argparse.StoreAction
           /\ argparse.dest a = "out_dir")
  \/ (~ In o ["-h"; "--help"; "--out-dir"]
      /\ argparse.find_action parser o = None).
Proof.
  unfold argparse.find_action; cbn.
  destruct (String.eqb_spec o "-h") as [->|H1]; cbn.
  { left; split; [now left | eexists; split; reflexivity]. }
  destruct (String.eqb_spec o "--help") as [->|H2]; cbn.
  { left; split; [now right; left | eexists; split; reflexivity]. }
  destruct (String.eqb_spec o "--out-dir") as [->|H3]; cbn.
  { right; left; split; [reflexivity | eexists; repeat split; reflexivity]. }
  right; right; split; [|reflexivity].
  intros [E|[E|[E|[]]]]; congruence.
Qed.

Lemma omitted_cons a argv : omitted (a :: argv) -> omitted argv.
Proof. intros H e Hin. apply (H e). now right. Qed.

(** The namespace only ever holds [out_dir]; it keeps its value when the
    option is not on the command line. *)
Lemma consume_namespace n : forall argv o extras ns,
  length argv <= n ->
  argparse.consume parser [("out_dir", o)] extras argv = argparse.Parsed ns ->
  exists o', ns = [("out_dir", o')] /\ (omitted argv -> o' = o).
Proof.
  induction n as [|n IH]; intros argv o extras ns Hlen H.
  - destruct argv; [|simpl in Hlen; lia]. simpl in H.
    destruct extras; [|discriminate]. inversion H; eauto.
  - destruct argv as [|[opt e|s] rest].
    + simpl in H. destruct extras; [|discriminate]. inversion H; eauto.
    + simpl in Hlen. cbn [argparse.consume] in H.
      destruct (find_action_cases opt)
        as [[_ (a & Hf & Hk)]|[[Ho (a & Hf & Hk & Hd)]|[_ Hf]]];
        rewrite Hf in H.
      * rewrite Hk in H. destruct e; discriminate.
      * rewrite Hk, Hd in H. subst opt.
        assert (Hno : ~ omitted (argparse.Optional "--out-dir" e :: rest))
          by (intros Hom; apply (Hom e); now left).
        destruct e as [v|].
        -- destruct (IH rest (Some v) extras ns) as (o' & -> & _);
             [lia | exact H |]. exists o'. tauto.
        -- destruct rest as [|[?|v] rest']; try discriminate.
           destruct (IH rest' (Some v) extras ns) as (o' & -> & _);
             [simpl in Hlen; lia | exact H |]. exists o'. tauto.
      * destruct (IH rest o (extras ++ [opt]) ns) as (o' & -> & Ho');
          [lia | exact H |].
        exists o'. split; [reflexivity|]. intros Hom. apply Ho'.
        eapply omitted_cons; eassumption.
    + simpl in Hlen. cbn [argparse.consume] in H.
      destruct (IH rest o (extras ++ [s]) ns) as (o' & -> & Ho');
        [lia | exact H |].
      exists o'. split; [reflexivity|]. intros Hom. apply Ho'.
      eapply omitted_cons; eassumption.
Qed.

Lemma parse_args_cases argv :
  (exists code, argparse.parse_args parser argv = argparse.Exit code)
  \/ (exists o, argparse.parse_args parser argv
                = argparse.Parsed [("out_dir", o)]
                /\ (omitted argv -> o = None)).
Proof.
  destruct (argparse.parse_args parser argv) as [ns|code] eqn:H;
    [right|left; eauto].
  unfold argparse.parse_args in H.
  change (argparse.defaults parser) with [("out_dir", @None string)] in H.
  destruct (consume_namespace (length argv) argv _ _ _ (le_n _) H)
    as (o' & -> & Ho).
  eauto.
Qed.

(** argparse exits with 0 (help) or 2 (usage error). *)
Lemma consume_exit_code n : forall argv ns extras code,
  length argv <= n ->
  argparse.consume parser ns extras argv = argparse.Exit code ->
  In code [0; 2]%Z.
Proof.
  induction n as [|n IH]; intros argv ns extras code Hlen H.
  - destruct argv; [|simpl in Hlen; lia]. simpl in H.
    destruct extras; [discriminate|]. injection H as <-. simpl; tauto.
  - destruct argv as [|[opt e|s] rest].
    + simpl in H. destruct extras; [discriminate|]. injection H as <-.
      simpl; tauto.
    + simpl in Hlen. cbn [argparse.consume] in H.
      destruct (find_action_cases opt)
        as [[_ (a & Hf & Hk)]|[[Ho (a & Hf & Hk & Hd)]|[_ Hf]]];
        rewrite Hf in H.
      * rewrite Hk in H. destruct e; injection H as <-; simpl; tauto.
      * rewrite Hk in H. destruct e as [v|].
        -- eapply IH; [|exact H]. lia.
        -- destruct rest as [|[?|v] rest'];
             try (injection H as <-; simpl; tauto).
           eapply IH; [|exact H]. simpl in Hlen. lia.
      * eapply IH; [|exact H]. lia.
    + simpl in Hlen. cbn [argparse.consume] in H.
      eapply IH; [|exact H]. lia.
Qed.

Lemma parse_args_exit_code argv code :
  argparse.parse_args parser argv = argparse.Exit code -> In code [0; 2]%Z.
Proof.
  unfold argparse.parse_args. intros H.
  exact (consume_exit_code (length argv) argv _ _ _ (le_n _) H).
Qed.

(** *** More on the command line *)

Lemma no_help_cons a argv : no_help (a :: argv) -> no_help argv.
Proof. intros H o e Hin. apply (H o e). now right. Qed.

(** Without a help option argparse can only exit with a usage error. *)
Lemma no_help_exit_code n : forall argv ns extras code,
  length argv <= n ->
  no_help argv ->
  argparse.consume parser ns extras argv = argparse.Exit code ->
  code = 2%Z.
Proof.
  induction n as [|n IH]; intros argv ns extras code Hlen Hnh H.
  - destruct argv; [|simpl in Hlen; lia]. simpl in H.
    destruct extras; [discriminate|]. now injection H as <-.
  - destruct argv as [|[opt e|s] rest].
    + simpl in H. destruct extras; [discriminate|]. now injection H as <-.
    + simpl in Hlen. cbn [argparse.consume] in H.
      pose proof (no_help_cons _ _ Hnh) as Hrest.
      destruct (find_action_cases opt)
        as [[Ho _]|[[Ho (a & Hf & Hk & Hd)]|[_ Hf]]].
      * elim (Hnh opt e); [now left | exact Ho].
      * rewrite Hf, Hk in H. destruct e as [v|].
        -- eapply IH; [| exact Hrest | exact H]. lia.
        -- destruct rest as [|[?|v] rest'];
             try (now injection H as <-).
           eapply IH; [| | exact H]; [simpl in Hlen; lia|].
           eapply no_help_cons; exact Hrest.
      * rewrite Hf in H. eapply IH; [| exact Hrest | exact H]. lia.
    + simpl in Hlen. cbn [argparse.consume] in H.
      eapply IH; [| | exact H]; [lia|]. eapply no_help_cons; exact Hnh.
Qed.

(** A further [--out-dir=d] at the end of a line that parses replaces the
    directory. *)
Lemma consume_out_dir_last n d : forall argv ns extras ns',
  length argv <= n ->
  argparse.consume parser ns extras argv = argparse.Parsed ns' ->
  argparse.consume parser ns extras
    (argv ++ [argparse.Optional "--out-dir" (Some d)])
  = argparse.Parsed (argparse.setattr ns' "out_dir" (Some d)).
Proof.
  induction n as [|n IH]; intros argv ns extras ns' Hlen H.
  - destruct argv; [|simpl in Hlen; lia]. simpl in H.
    destruct extras; [|discriminate]. injection H as <-. reflexivity.
  - destruct argv as [|[opt e|s] rest].
    + simpl in H. destruct extras; [|discriminate]. injection H as <-.
      reflexivity.
    + simpl in Hlen. cbn [argparse.consume app] in *.
      destruct (find_action_cases opt)
        as [[_ (a & Hf & Hk)]|[[_ (a & Hf & Hk & Hd)]|[_ Hf]]];
        rewrite Hf in *.
      * rewrite Hk in *. destruct e; discriminate.
      * rewrite Hk in *. destruct e as [v|].
        -- apply IH; [lia | exact H].
        -- destruct rest as [|[?|v] rest']; try discriminate.
           cbn [app]. apply IH; [simpl in Hlen; lia | exact H].
      * apply IH; [lia | exact H].
    + simpl in Hlen. cbn [argparse.consume app] in *.
      apply IH; [lia | exact H].
Qed.

(** A trailing [--out-dir] that lacks its value never parses. *)
Lemma consume_out_dir_missing n : forall argv ns extras ns',
  length argv <= n ->
  argparse.consume parser ns extras
    (argv ++ [argparse.Optional "--out-dir" None])
  <> argparse.Parsed ns'.
Proof.
  induction n as [|n IH]; intros argv ns extras ns' Hlen.
  - destruct argv; [|simpl in Hlen; lia]. discriminate.
  - destruct argv as [|[opt e|s] rest].
    + discriminate.
    + simpl in Hlen. cbn [argparse.consume app].
      destruct (find_action_cases opt)
        as [[_ (a & Hf & Hk)]|[[_ (a & Hf & Hk & Hd)]|[_ Hf]]];
        rewrite Hf.
      * rewrite Hk. destruct e; discriminate.
      * rewrite Hk. destruct e as [v|]; [apply IH; lia|].
        destruct rest as [|[?|v] rest']; try discriminate.
        cbn [app]. apply IH. simpl in Hlen. lia.
      * apply IH. lia.
    + simpl in Hlen. cbn [argparse.consume app]. apply IH. lia.
Qed.

Lemma no_help_app argv a :
  no_help argv -> no_help [a] -> no_help (argv ++ [a]).
Proof.
  intros H1 H2 o e Hin. apply in_app_or in Hin as [Hin|Hin];
    [exact (H1 o e Hin) | exact (H2 o e Hin)].
Qed.

(** ** Traces in general *)

Section TraceLemmas.
Variables (I E : Type).
Implicit Types (t pre post : list (event I E)) (c : call I).

Lemma existsb_stage d done :
  existsb (stage_eqb d) done = true -> In d done.
Proof.
  intros H. apply existsb_exists in H as (x & Hin & Heq).
  apply stage_eqb_eq in Heq. now subst.
Qed.

Lemma deps_done_inv t : forall done pre c post,
  deps_done done t = true ->
  t = pre ++ Called c :: post ->
  forall d, In d (depends_on (callee c)) ->
  In d done \/ In (Returned d) pre.
Proof.
  induction t as [|ev t IH]; intros done pre c post Hd Heq d Hin.
  - destruct pre; discriminate.
  - destruct pre as [|ev' pre].
    + injection Heq as -> ->. simpl in Hd.
      apply andb_true_iff in Hd as [Hall _].
      rewrite forallb_forall in Hall. left.
      apply existsb_stage, Hall, Hin.
    + injection Heq as <- ->.
      destruct ev as [c'|s|s e]; simpl in Hd.
      * apply andb_true_iff in Hd as [_ Hd].
        destruct (IH _ _ _ _ Hd eq_refl d Hin); [now left|right; now right].
      * destruct (IH _ _ _ _ Hd eq_refl d Hin) as [[<-|H]|H].
        -- right; now left.
        -- now left.
        -- right; now right.
      * destruct (IH _ _ _ _ Hd eq_refl d Hin); [now left|right; now right].
Qed.

Lemma deps_done_sound t :
  deps_done [] t = true -> respects_dependencies t.
Proof.
  intros Hd pre c post Heq d Hin.
  destruct (deps_done_inv _ _ _ _ _ Hd Heq d Hin) as [[]|H]; exact H.
Qed.

Lemma raise_is_last_inv t : forall pre s e post,
  raise_is_last t = true ->
  t = pre ++ Raised s e :: post ->
  post = [] /\ last_event t = Some (Raised s e).
Proof.
  unfold last_event.
  induction t as [|ev t IH]; intros pre s e post Hr Heq.
  - destruct pre; discriminate.
  - destruct pre as [|ev' pre].
    + injection Heq as -> ->. simpl in Hr.
      destruct post; [split; reflexivity | discriminate].
    + injection Heq as <- Heq.
      assert (Hr' : raise_is_last t = true).
      { destruct ev; simpl in Hr; try exact Hr.
        destruct t; [reflexivity | discriminate]. }
      destruct (IH _ _ _ _ Hr' Heq) as [-> Hl]. split; [reflexivity|].
      subst t. destruct pre; exact Hl.
Qed.

Lemma distinct_NoDup (l : list stage) : distinct l = true -> NoDup l.
Proof.
  induction l as [|s l IH]; simpl; intros H; constructor.
  - apply andb_true_iff in H as [H _]. intros Hin.
    apply negb_true_iff in H.
    assert (existsb (stage_eqb s) l = true) as He; [|congruence].
    apply existsb_exists. exists s. split; [exact Hin|].
    now apply stage_eqb_eq.
  - apply IH. now apply andb_true_iff in H as [_ H].
Qed.

End TraceLemmas.

(** ** Runs of the script *)

Section RunProperties.
Variables (World I E : Type) (mods : modules World I E).

Ltac stage_case f :=
  match goal with
  | |- context [f ?a ?b ?c ?d] =>
      destruct (f a b c d) as [[?e|[]] ?w] eqn:?
  | |- context [f ?a ?b ?c] => destruct (f a b c) as [[?e|[]] ?w] eqn:?
  | |- context [f ?a ?b] => destruct (f a b) as [[?e|?i] ?w] eqn:?
  end; cbn.

(** Every way a run can go: argparse exits, or the stages run until the
    first one raises.  Leaves one goal per way, the run evaluated. *)
Ltac run_cases argv :=
  unfold trace_of, result_of, world_of, main, build_py, parse_args;
  let Hp := fresh "Hp" in
  let Ho := fresh "Ho" in
  destruct (parse_args_cases argv) as [[?code Hp]|[?o [Hp Ho]]];
  rewrite Hp; cbn;
  [ | unfold invoke; cbn;
      stage_case (@all_isas World I E);
      [ | stage_case (@types_generate World I E);
          [ | stage_case (@instr_generate World I E);
              [ | stage_case (@settings_generate World I E);
                  [ | stage_case (@encoding_generate World I E);
                      [ | stage_case (@build_deps_generate World I E) ]]]]]].

(** C1: the stages are entered in the order ISA registry, type catalog,
    instruction tables, settings tables, encoding tables, build
    dependencies: the stages entered by any run are an initial part of
    that list, a run that succeeds entered all of them, and a stage is
    only entered after every stage it depends on has returned. *)
Theorem stages_run_in_dependency_order (argv : list argparse.token) (w : World) :
  (exists rest, entered (trace_of (main mods argv w)) ++ rest = pipeline)
  /\ (result_of (main mods argv w) = inr tt ->
      entered (trace_of (main mods argv w)) = pipeline)
  /\ respects_dependencies (trace_of (main mods argv w)).
Proof.
  run_cases argv;
    (split; [eexists; reflexivity |
     split; [intros H; first [reflexivity | discriminate H] |
             apply deps_done_sound; reflexivity]]).
Qed.

(** C4: the first exception of a stage ends the run.  Nothing is logged
    after it, the script ends with that very exception, the stages
    entered are the pipeline up to the failing stage and no further, and
    no stage is entered twice. *)
Theorem first_error_aborts (argv : list argparse.token) (w : World) :
  (forall pre s e post,
      trace_of (main mods argv w) = pre ++ Raised s e :: post ->
      post = []
      /\ result_of (main mods argv w) = inl (StageError e)
      /\ exists before after,
           pipeline = before ++ s :: after
           /\ entered (trace_of (main mods argv w)) = before ++ [s])
  /\ NoDup (entered (trace_of (main mods argv w))).
Proof.
  run_cases argv;
    (split; [| apply distinct_NoDup; reflexivity]);
    intros pre s e' post Heq;
    (apply raise_is_last_inv in Heq as [-> Hl]; [|reflexivity]);
    cbv in Hl; try discriminate Hl;
    injection Hl as <- <-;
    (split; [reflexivity|]); (split; [reflexivity|]);
    match goal with
    | |- exists b a, _ /\ ?l = _ =>
        exists (removelast l), (skipn (length l) pipeline)
    end; split; reflexivity.
Qed.


(** C3, as the code has it: the instruction, settings and encoding
    generators are called with the list the registry returned and the
    output directory; the type generator is called with the output
    directory alone, the build-dependency emitter with nothing. *)
Theorem isa_list_fan_out (argv : list argparse.token) (w : World) (c : call I) :
  In c (calls (trace_of (main mods argv w))) ->
  match callee c with
  | InstructionTable | SettingsTable | EncodingTable =>
      exists i o, fst (all_isas mods w) = inr i
                  /\ call_args c = [IsasArg i; OutDirArg o]
  | TypeCatalog => exists o, call_args c = [OutDirArg o]
  | IsaRegistry | BuildDeps => call_args c = []
  end.
Proof.
  run_cases argv; intros Hin;
    repeat destruct Hin as [<-|Hin]; try contradiction; cbn; eauto.
Qed.

(** C8: the build-dependency emitter is called without arguments.  Any
    call that enters it is the one call [gen_build_deps.generate()], with
    an empty argument list, whatever the command line and the registry;
    and a run that succeeds made that call, as its last. *)
Theorem build_deps_called_without_arguments
    (argv : list argparse.token) (w : World) :
  (forall c, In c (calls (trace_of (main mods argv w))) ->
             callee c = BuildDeps ->
             c = gen_build_deps_call /\ call_args c = []
             /\ ~ receives_isas c
             /\ forall o, ~ In (OutDirArg o) (call_args c))
  /\ (result_of (main mods argv w) = inr tt ->
      exists cs, calls (trace_of (main mods argv w))
                 = cs ++ [gen_build_deps_call]).
Proof.
  split.
  - intros c _ Hc. destruct c; try discriminate Hc.
    repeat split; [intros [i []] | intros o []].
  - run_cases argv; intros H; try discriminate H.
    eexists [_; _; _; _; _]. reflexivity.
Qed.

(** C9: without [--out-dir] on the command line, [out_dir] is [None] in
    every call that receives it, the script raises no [AttributeError],
    a run that succeeds called the four generators with [None], and with
    an empty command line argparse does not exit either: only a stage
    can make the run fail. *)
Theorem out_dir_omitted_is_None (argv : list argparse.token) (w : World) :
  omitted argv ->
  (forall c o, In c (calls (trace_of (main mods argv w))) ->
               In (OutDirArg o) (call_args c) -> o = None)
  /\ (forall name, result_of (main mods argv w) <> inl (AttributeError name))
  /\ (result_of (main mods argv w) = inr tt ->
      exists i, calls (trace_of (main mods argv w)) = script_calls i None)
  /\ (argv = [] ->
      forall code, result_of (main mods argv w) <> inl (SystemExit code)).
Proof.
  intros Hom. revert Hom.
  run_cases argv; intros Hom; try (specialize (Ho Hom); subst o);
    (split; [intros c o' Hin Ha;
             repeat destruct Hin as [<-|Hin]; try contradiction;
             cbn in Ha; intuition congruence |]);
    (split; [intros name; discriminate |]);
    (split; [intros H; first [discriminate H | eexists; reflexivity] |]);
    intros Hargv code'; try discriminate.
  subst argv. discriminate Hp.
Qed.

(** C10: the registry is resolved once.  A run enters [isa.all_isas] at
    most once, and exactly once unless argparse exits; every ISA list a
    call receives is the value that call returned; and a run that
    succeeds passed that value to the instruction, settings and encoding
    generators. *)
Theorem registry_resolved_once (argv : list argparse.token) (w : World) :
  length (filter is_registry_call (calls (trace_of (main mods argv w)))) <= 1
  /\ ((forall code, result_of (main mods argv w) <> inl (SystemExit code)) ->
      length (filter is_registry_call
                (calls (trace_of (main mods argv w)))) = 1)
  /\ (forall c i, In c (calls (trace_of (main mods argv w))) ->
                  In (IsasArg i) (call_args c) ->
                  fst (all_isas mods w) = inr i)
  /\ (result_of (main mods argv w) = inr tt ->
      exists i o, fst (all_isas mods w) = inr i
                  /\ calls (trace_of (main mods argv w)) = script_calls i o).
Proof.
  run_cases argv;
    (split; [lia |]);
    (split; [intros H; first [reflexivity | now elim (H code)] |]);
    (split; [intros c i' Hin Ha;
             repeat destruct Hin as [<-|Hin]; try contradiction;
             cbn in Ha; intuition congruence |]);
    intros H; first [discriminate H | eexists _, _; split; reflexivity].
Qed.

(** *** Further properties of runs *)

(** X1: one output directory per run.  When the command line parses,
    [args.out_dir] exists, and every call that receives an output
    directory receives that value. *)
Theorem same_out_dir_everywhere
    (argv : list argparse.token) (w : World) (ns : argparse.Namespace) :
  argparse.parse_args parser argv = argparse.Parsed ns ->
  exists o0,
    argparse.getattr ns "out_dir" = Some o0
    /\ forall c o, In c (calls (trace_of (main mods argv w))) ->
                   In (OutDirArg o) (call_args c) -> o = o0.
Proof.
  intros Hns. revert Hns.
  run_cases argv; intros Hns; try discriminate Hns;
    injection Hns as <-; exists o; (split; [reflexivity|]);
    intros c o' Hin Ha;
    repeat destruct Hin as [<-|Hin]; try contradiction;
    cbn in Ha; intuition congruence.
Qed.

(** X2: the last [--out-dir] wins.  After any command line that parses,
    a further [--out-dir=d] makes the run go on to the stages, and every
    call that receives an output directory receives [d]. *)
Theorem last_out_dir_wins
    (argv : list argparse.token) (d : string) (w : World)
    (ns : argparse.Namespace) :
  argparse.parse_args parser argv = argparse.Parsed ns ->
  (forall code,
      result_of (main mods (argv ++ [argparse.Optional "--out-dir" (Some d)]) w)
      <> inl (SystemExit code))
  /\ entered (trace_of
       (main mods (argv ++ [argparse.Optional "--out-dir" (Some d)]) w)) <> []
  /\ forall c o,
       In c (calls (trace_of
         (main mods (argv ++ [argparse.Optional "--out-dir" (Some d)]) w))) ->
       In (OutDirArg o) (call_args c) -> o = Some d.
Proof.
  intros Hns.
  assert (Hlast : argparse.parse_args parser
                    (argv ++ [argparse.Optional "--out-dir" (Some d)])
                  = argparse.Parsed [("out_dir", Some d)]).
  { destruct (parse_args_cases argv) as [[code Hp]|[o [Hp _]]];
      [congruence|].
    unfold argparse.parse_args in *.
    rewrite (consume_out_dir_last (length argv) d argv _ _ _ (le_n _) Hp).
    reflexivity. }
  revert Hlast.
  run_cases (argv ++ [argparse.Optional "--out-dir" (Some d)]);
    intros Hlast; try discriminate Hlast;
    injection Hlast as ->;
    (split; [intros code'; discriminate |]);
    (split; [discriminate |]);
    intros c o' Hin Ha;
    repeat destruct Hin as [<-|Hin]; try contradiction;
    cbn in Ha; intuition congruence.
Qed.

(** X3: when argparse exits (help or usage error) no stage is entered and
    the world is left as it was; and these are the only runs that enter no
    stage: once the command line parses, the registry is resolved. *)
Theorem argparse_exit_runs_nothing
    (argv : list argparse.token) (w : World) :
  (forall code,
      argparse.parse_args parser argv = argparse.Exit code ->
      main mods argv w = (inl (SystemExit code), State [] w))
  /\ (entered (trace_of (main mods argv w)) = [] ->
      exists code, argparse.parse_args parser argv = argparse.Exit code).
Proof.
  split.
  - intros code Hp. unfold main, build_py, parse_args. rewrite Hp.
    reflexivity.
  - run_cases argv; intros H; try discriminate H. eauto.
Qed.

(** X8: a trailing [--out-dir] without its value is a usage error: unless
    a help option is on the line, the process exits with status 2 before
    any stage is entered. *)
Theorem out_dir_without_value_is_usage_error
    (argv : list argparse.token) (w : World) :
  no_help argv ->
  main mods (argv ++ [argparse.Optional "--out-dir" None]) w
  = (inl (SystemExit 2), State [] w).
Proof.
  intros Hnh.
  destruct (argparse.parse_args parser
              (argv ++ [argparse.Optional "--out-dir" None]))
    as [ns|code] eqn:Hp.
  - exfalso. unfold argparse.parse_args in Hp. revert Hp.
    apply (consume_out_dir_missing (length argv)). apply le_n.
  - assert (code = 2%Z) as ->.
    { unfold argparse.parse_args in Hp.
      refine (no_help_exit_code _ _ _ _ _ (le_n _) _ Hp).
      apply no_help_app; [exact Hnh|].
      intros o e [Heq|[]]. injection Heq as <- _.
      intros [H|[H|[]]]; discriminate H. }
    unfold main, build_py, parse_args. rewrite Hp. reflexivity.
Qed.

End RunProperties.

(** ** The exit status *)

Section ExitStatus.
Variables (World I E : Type) (mods : modules World I E).
Variable status : E -> Z.

Ltac stage_case f :=
  match goal with
  | |- context [f ?a ?b ?c ?d] =>
      destruct (f a b c d) as [[?e|[]] ?w] eqn:?
  | |- context [f ?a ?b ?c] => destruct (f a b c) as [[?e|[]] ?w] eqn:?
  | |- context [f ?a ?b] => destruct (f a b) as [[?e|?i] ?w] eqn:?
  end; cbn.

(** Every way a run can go: argparse exits, or the stages run until the
    first one raises.  Leaves one goal per way, the run evaluated. *)
Ltac run_cases argv :=
  unfold trace_of, result_of, world_of, main, build_py, parse_args;
  let Hp := fresh "Hp" in
  let Ho := fresh "Ho" in
  destruct (parse_args_cases argv) as [[?code Hp]|[?o [Hp Ho]]];
  rewrite Hp; cbn;
  [ | unfold invoke; cbn;
      stage_case (@all_isas World I E);
      [ | stage_case (@types_generate World I E);
          [ | stage_case (@instr_generate World I E);
              [ | stage_case (@settings_generate World I E);
                  [ | stage_case (@encoding_generate World I E);
                      [ | stage_case (@build_deps_generate World I E) ]]]]]].


(** X5: the script itself never raises.  Reading [args.out_dir] never
    gives an [AttributeError]; an exception of a module that ends the run
    is one a stage raised; and when no stage raised, the process exits
    with 0 (success or help) or 2 (usage error). *)
Theorem script_never_raises (argv : list argparse.token) (w : World) :
  (forall name, result_of (main mods argv w) <> inl (AttributeError name))
  /\ (forall e, result_of (main mods argv w) = inl (StageError e) ->
                exists s, In (Raised s e) (trace_of (main mods argv w)))
  /\ (~ raised (trace_of (main mods argv w)) ->
      In (exit_code status (result_of (main mods argv w))) [0; 2]%Z).
Proof.
  pose proof (parse_args_exit_code argv) as Hcode. revert Hcode.
  run_cases argv; intros Hcode;
    (split; [intros name; discriminate |]);
    (split;
     [ intros e' H; first [ discriminate H
                          | injection H as <-; eexists; cbn; eauto 20 ]
     | intros Hn;
       first [ exact (Hcode _ eq_refl)
             | simpl; tauto
             | exfalso; apply Hn; eexists _, _; cbn; eauto 20 ] ]).
Qed.

(** X6: the script adds no failure of its own.  When no imported function
    raises, every command line that parses gives a run that succeeds, with
    all six stages entered and exit status 0. *)
Theorem no_raise_then_success
    (argv : list argparse.token) (w : World) (ns : argparse.Namespace) :
  never_raise mods ->
  argparse.parse_args parser argv = argparse.Parsed ns ->
  result_of (main mods argv w) = inr tt
  /\ entered (trace_of (main mods argv w)) = pipeline
  /\ exit_code status (result_of (main mods argv w)) = 0%Z.
Proof.
  intros (N0 & N1 & N2 & N3 & N4 & N5) Hns. revert Hns.
  run_cases argv; intros Hns; try discriminate Hns;
    try match goal with u : unit |- _ => destruct u end;
    try (repeat split; reflexivity);
    exfalso;
    match goal with
    | Heq : ?lhs = (inl _, _) |- _ =>
        first
          [ assert (X : fst lhs = inr tt)
              by first [apply N1 | apply N2 | apply N3 | apply N4 | apply N5];
            rewrite Heq in X; discriminate X
          | destruct (N0 w) as [i' X]; rewrite Heq in X; discriminate X ]
    end.
Qed.

End ExitStatus.

(** ** The registry *)

Lemma first_duplicate_None l :
  isa.first_duplicate l = None <-> NoDup l.
Proof.
  induction l as [|x l IH]; simpl.
  - split; [constructor | reflexivity].
  - destruct (existsb (String.eqb x) l) eqn:Hx.
    + split; [discriminate|]. intros Hnd. inversion Hnd as [|? ? Hnin _].
      apply existsb_exists in Hx as (y & Hin & Heq).
      apply String.eqb_eq in Heq. subst y. contradiction.
    + rewrite IH. split.
      * intros Hnd. constructor; [|exact Hnd]. intros Hin.
        assert (existsb (String.eqb x) l = true) as He; [|congruence].
        apply existsb_exists. exists x. split; [exact Hin|].
        apply String.eqb_refl.
      * intros Hnd. now inversion Hnd.
Qed.

(** C5: resolving the registry fails with a ConfigurationError exactly
    when the declared list is empty or holds an identifier twice;
    otherwise it returns the declared list, in its order. *)
Theorem all_isas_checks_registry (declared : list string) :
  ((exists e : isa.ConfigurationError, isa.all_isas declared = inl e)
   <-> declared = [] \/ ~ NoDup declared)
  /\ (isa.all_isas declared = inr declared
      <-> declared <> [] /\ NoDup declared).
Proof.
  unfold isa.all_isas. destruct declared as [|x l].
  - split; split.
    + now left.
    + eauto.
    + discriminate.
    + intros [H _]. now elim H.
  - destruct (isa.first_duplicate (x :: l)) as [name|] eqn:Hd.
    + assert (~ NoDup (x :: l)) as Hn.
      { intros Hnd. apply first_duplicate_None in Hnd. congruence. }
      split; split.
      * now right.
      * eauto.
      * discriminate.
      * intros [_ H]. contradiction.
    + apply first_duplicate_None in Hd. split; split.
      * intros [e He]. discriminate.
      * intros [H|H]; [discriminate | contradiction].
      * intros _. split; [discriminate | exact Hd].
      * reflexivity.
Qed.

(** ** The output sink of the staged modules *)



(** ** The properties on the sample modules *)

Lemma stages_run_in_dependency_order_witness :
  result_of (main Sample.mods Sample.argv Sample.good) = inr tt
  /\ entered (trace_of (main Sample.mods Sample.argv Sample.good)) = pipeline.
Proof.
  split; [reflexivity|].
  apply (stages_run_in_dependency_order _ _ _
           Sample.mods Sample.argv Sample.good).
  reflexivity.
Defined.

Lemma first_error_aborts_witness :
  result_of (main Sample.mods Sample.argv Sample.bad)
  = inl (StageError (Sample.TypeInferenceError "iadd")).
Proof.
  apply (proj1 (first_error_aborts _ _ _ Sample.mods Sample.argv Sample.bad)
           [Called isa_all_isas_call; Returned IsaRegistry;
            Called (gen_types_call (Some "out")); Returned TypeCatalog;
            Called (gen_instr_call ["riscv"; "intel"] (Some "out"))]
           InstructionTable (Sample.TypeInferenceError "iadd") []).
  reflexivity.
Defined.



Lemma isa_list_fan_out_witness :
  In (gen_types_call (Some "out"))
     (calls (trace_of (main Sample.mods Sample.argv Sample.good)))
  /\ exists o, call_args (gen_types_call (I := list string) (Some "out"))
               = [OutDirArg o].
Proof.
  assert (Hin : In (gen_types_call (Some "out"))
                   (calls (trace_of (main Sample.mods Sample.argv Sample.good))))
    by (cbv; tauto).
  split; [exact Hin|].
  exact (isa_list_fan_out _ _ _ Sample.mods Sample.argv Sample.good _ Hin).
Defined.

(** C3, as stated, fails: the type stage runs after the registry is
    resolved and does not receive the ISA list. *)
Lemma type_catalog_does_not_receive_isas :
  ~ (forall c,
       In c (calls (trace_of (main Sample.mods Sample.argv Sample.good))) ->
       callee c <> IsaRegistry ->
       receives_isas c).
Proof.
  intros H.
  destruct (H (gen_types_call (Some "out"))) as [i Hi].
  - cbv. tauto.
  - discriminate.
  - destruct Hi as [Hi|[]]. discriminate Hi.
Qed.

Lemma all_isas_checks_registry_witness :
  isa.all_isas ["riscv"; "intel"] = inr ["riscv"; "intel"]
  /\ exists e, isa.all_isas ["riscv"; "riscv"] = inl e.
Proof.
  split.
  - apply (proj2 (proj2 (all_isas_checks_registry ["riscv"; "intel"]))).
    split; [discriminate|].
    repeat constructor; simpl; intuition discriminate.
  - apply (proj2 (proj1 (all_isas_checks_registry ["riscv"; "riscv"]))).
    right. intros H. inversion H as [|? ? Hn _]. apply Hn. now left.
Defined.



Lemma build_deps_called_without_arguments_witness :
  exists cs, calls (trace_of (main Sample.mods Sample.argv Sample.good))
             = cs ++ [gen_build_deps_call].
Proof.
  apply (proj2 (build_deps_called_without_arguments _ _ _
                  Sample.mods Sample.argv Sample.good)).
  reflexivity.
Defined.

Lemma omitted_nil : omitted [].
Proof. intros e []. Qed.

Lemma out_dir_omitted_is_None_witness :
  omitted []
  /\ exists i, calls (trace_of (main Sample.mods [] Sample.good))
               = script_calls i None.
Proof.
  split; [exact omitted_nil|].
  apply (out_dir_omitted_is_None _ _ _ Sample.mods [] Sample.good omitted_nil).
  reflexivity.
Defined.

Lemma registry_resolved_once_witness :
  exists i o,
    fst (all_isas Sample.mods Sample.good) = inr i
    /\ calls (trace_of (main Sample.mods Sample.argv Sample.good))
       = script_calls i o.
Proof.
  apply (registry_resolved_once _ _ _ Sample.mods Sample.argv Sample.good).
  reflexivity.
Defined.

(** ** The further properties on the sample modules *)

Lemma same_out_dir_everywhere_witness :
  exists o0,
    argparse.getattr [("out_dir", Some "out")] "out_dir" = Some o0
    /\ forall c o,
         In c (calls (trace_of (main Sample.mods Sample.argv Sample.good))) ->
         In (OutDirArg o) (call_args c) -> o = o0.
Proof.
  apply (same_out_dir_everywhere _ _ _ Sample.mods Sample.argv Sample.good).
  reflexivity.
Defined.

Lemma last_out_dir_wins_witness :
  argparse.parse_args parser Sample.argv
  = argparse.Parsed [("out_dir", Some "out")]
  /\ forall c o,
       In c (calls (trace_of
         (main Sample.mods
            (Sample.argv ++ [argparse.Optional "--out-dir" (Some "gen")])
            Sample.good))) ->
       In (OutDirArg o) (call_args c) -> o = Some "gen".
Proof.
  split; [reflexivity|].
  apply (last_out_dir_wins _ _ _ Sample.mods Sample.argv "gen" Sample.good
           [("out_dir", Some "out")]).
  reflexivity.
Defined.

Lemma argparse_exit_runs_nothing_witness :
  main Sample.mods [argparse.Plain "stray"] Sample.good
  = (inl (SystemExit 2), State [] Sample.good).
Proof.
  apply (proj1 (argparse_exit_runs_nothing _ _ _
                  Sample.mods [argparse.Plain "stray"] Sample.good)).
  reflexivity.
Defined.

Lemma script_never_raises_witness :
  exists s, In (Raised s (Sample.TypeInferenceError "iadd"))
               (trace_of (main Sample.mods Sample.argv Sample.bad)).
Proof.
  apply (proj1 (proj2 (script_never_raises _ _ _ Sample.mods Sample.status
                         Sample.argv Sample.bad))).
  reflexivity.
Defined.

Lemma quiet_modules_never_raise : never_raise quiet_modules.
Proof. repeat split; intros; cbn; eauto. Qed.

Lemma no_raise_then_success_witness :
  never_raise quiet_modules
  /\ result_of (main quiet_modules Sample.argv Sample.bad) = inr tt.
Proof.
  split; [exact quiet_modules_never_raise|].
  apply (no_raise_then_success _ _ _ quiet_modules Sample.status
           Sample.argv Sample.bad
           [("out_dir", Some "out")] quiet_modules_never_raise).
  reflexivity.
Defined.

Lemma out_dir_without_value_is_usage_error_witness :
  main Sample.mods ([] ++ [argparse.Optional "--out-dir" None]) Sample.good
  = (inl (SystemExit 2), State [] Sample.good).
Proof.
  apply (out_dir_without_value_is_usage_error _ _ _ Sample.mods []).
  intros o e [].
Defined.

(** ** The sink property on the staged modules *)


